(** * maestro: context switch, exit system call, multiboot tags, alignment

    A shallow embedding of four pieces of the kernel:
    - [src/util/util.h]: the alignment macros;
    - [src/multiboot.c]: [read_boot_tags];
    - [src/process/context_switch.s]: the [context_switch] routine;
    - the [exit] system call handler [sys_exit].

    The kernel targets 32-bit x86: machine words, addresses and registers
    are 32-bit patterns, represented by their unsigned value in [Z] with the
    wrap-around written out. *)

From Stdlib Require Import ZArith List Bool Lia.
Import ListNotations.
Local Open Scope Z_scope.

(** ** 32-bit words *)

Module Word.

Definition modulus : Z := 2 ^ 32.

(** Truncation of an integer to its low 32 bits. *)
Definition wrap (z : Z) : Z := z mod modulus.

(** The value is a 32-bit pattern. *)
Definition is_word (z : Z) : Prop := 0 <= z < modulus.

(** C's [~] on a 32-bit operand. *)
Definition not32 (z : Z) : Z := wrap (Z.lnot z).

(** The low 16 bits, as loaded into a segment register. *)
Definition low16 (z : Z) : Z := z mod 2 ^ 16.

(** The address [d] bytes away from [a]. *)
Definition offset (a d : Z) : Z := wrap (a + d).

End Word.

(** ** src/util/util.h: alignment macros *)

Module Util.
Import Word.

(** [IS_ALIGNED(ptr, n)] is [((intptr_t) (ptr) & ((n) - 1)) == 0]. *)
Definition IS_ALIGNED (ptr n : Z) : bool :=
  Z.land ptr (wrap (n - 1)) =? 0.

(** [ALIGN_DOWN(ptr, n)] is [(intptr_t) (ptr) & ~((intptr_t) (n) - 1)],
    cast back to a pointer. *)
Definition ALIGN_DOWN (ptr n : Z) : Z :=
  Z.land ptr (not32 (wrap (n - 1))).

(** [ALIGN_UP(ptr, n)] is [ALIGN_DOWN(ptr, n) + (n)]: the sum is a pointer
    again, so it is taken modulo [2 ^ 32]. *)
Definition ALIGN_UP (ptr n : Z) : Z :=
  wrap (ALIGN_DOWN ptr n + n).

(** [ALIGN(ptr, n)] is
    [IS_ALIGNED((ptr), (n)) ? (ptr) : ALIGN_UP((ptr), (n))]. *)
Definition ALIGN (ptr n : Z) : Z :=
  if IS_ALIGNED ptr n then ptr else ALIGN_UP ptr n.

(** [m] is the least multiple of [n] that is at least [p]. *)
Definition least_multiple_ge (n p m : Z) : Prop :=
  (n | m) /\ p <= m /\ forall m', (n | m') -> p <= m' -> m <= m'.

(** [UPPER_DIVISION(n0, n1)] is
    [(n0) % (n1) == 0 ? (n0) / (n1) : (n0) / (n1) + 1], with C's truncating
    division and remainder. *)
Definition UPPER_DIVISION (n0 n1 : Z) : Z :=
  if Z.rem n0 n1 =? 0 then Z.quot n0 n1 else wrap (Z.quot n0 n1 + 1).

(** [POW2(n)] is [1 << (n)]. *)
Definition POW2 (n : Z) : Z := wrap (Z.shiftl 1 n).

(** [m] is the greatest multiple of [n] that is at most [p]. *)
Definition greatest_multiple_le (n p m : Z) : Prop :=
  (n | m) /\ m <= p /\ forall m', (n | m') -> m' <= p -> m' <= m.

(** [q] is the least number of pieces of size [n1] that cover [n0]. *)
Definition least_cover (n0 n1 q : Z) : Prop :=
  n0 <= q * n1 /\ forall q', n0 <= q' * n1 -> q <= q'.

End Util.

(** ** src/multiboot.c: read_boot_tags *)

Module Multiboot.
Import Word.

(** The tag type constants of [multiboot.h].  The header is not among the
    sources, so the constants are parameters; the five that label the cases
    of one [switch] are pairwise distinct in any program that compiles, and
    all six are distinct in the Multiboot2 format. *)
Record tag_types : Type := {
  MULTIBOOT_TAG_TYPE_END : Z;
  MULTIBOOT_TAG_TYPE_CMDLINE : Z;
  MULTIBOOT_TAG_TYPE_BOOT_LOADER_NAME : Z;
  MULTIBOOT_TAG_TYPE_MODULE : Z;
  MULTIBOOT_TAG_TYPE_BASIC_MEMINFO : Z;
  MULTIBOOT_TAG_TYPE_BOOTDEV : Z
}.

Definition distinct_types (h : tag_types) : Prop :=
  NoDup [MULTIBOOT_TAG_TYPE_END h; MULTIBOOT_TAG_TYPE_CMDLINE h;
         MULTIBOOT_TAG_TYPE_BOOT_LOADER_NAME h; MULTIBOOT_TAG_TYPE_MODULE h;
         MULTIBOOT_TAG_TYPE_BASIC_MEMINFO h; MULTIBOOT_TAG_TYPE_BOOTDEV h].

(** The constants of the Multiboot2 format. *)
Definition multiboot2 : tag_types := {|
  MULTIBOOT_TAG_TYPE_END := 0;
  MULTIBOOT_TAG_TYPE_CMDLINE := 1;
  MULTIBOOT_TAG_TYPE_BOOT_LOADER_NAME := 2;
  MULTIBOOT_TAG_TYPE_MODULE := 3;
  MULTIBOOT_TAG_TYPE_BASIC_MEMINFO := 4;
  MULTIBOOT_TAG_TYPE_BOOTDEV := 5
|}.

(** One tag of the boot information, as [read_boot_tags] observes it: the
    two members of [multiboot_tag_t], and the members it reads through the
    casts to [multiboot_tag_string_t] and [multiboot_tag_basic_meminfo_t].
    [string] is the character pointer the member yields. *)
Record multiboot_tag_t : Type := {
  type : Z;
  size : Z;
  string : Z;
  mem_lower : Z;
  mem_upper : Z
}.

(** The 32-bit [size] member of every tag is a 32-bit pattern. *)
Definition well_typed (l : list multiboot_tag_t) : Prop :=
  Forall (fun t => is_word (size t)) l.

(** The fields of [boot_info_t] that [read_boot_tags] assigns. *)
Record boot_info_t : Type := {
  cmdline : Z;
  loader_name : Z;
  info_mem_lower : Z;
  info_mem_upper : Z
}.

(** [bzero(&data, sizeof(data))] *)
Definition zeroed : boot_info_t :=
  {| cmdline := 0; loader_name := 0; info_mem_lower := 0; info_mem_upper := 0 |}.

(** What the loop does not return: either the iteration budget of the model
    ran out, or the tag pointer left the tag area. *)
Inductive outcome : Type :=
| Done (data : boot_info_t)
| OutOfFuel
| Fault.

(** The bytes a tag of size [sz] occupies in the boot information: tags are
    padded so that each starts on an 8-byte boundary. *)
Definition extent (sz : Z) : Z := 8 * ((sz + 7) / 8).

(** The tag that starts [off] bytes into the tag area [l]. *)
Fixpoint tag_at (l : list multiboot_tag_t) (off : Z) : option multiboot_tag_t :=
  match l with
  | [] => None
  | t :: r => if off =? 0 then Some t else tag_at r (off - extent (size t))
  end.

(** [(tag->size + 7) & ~7], computed on 32-bit unsigned integers. *)
Definition advance (sz : Z) : Z := Z.land (wrap (sz + 7)) (not32 7).

Section ReadBootTags.

Variable h : tag_types.

(** The body of the [switch]. *)
Definition switch_tag (t : multiboot_tag_t) (data : boot_info_t) : boot_info_t :=
  if type t =? MULTIBOOT_TAG_TYPE_CMDLINE h then
    {| cmdline := string t; loader_name := loader_name data;
       info_mem_lower := info_mem_lower data;
       info_mem_upper := info_mem_upper data |}
  else if type t =? MULTIBOOT_TAG_TYPE_BOOT_LOADER_NAME h then
    {| cmdline := cmdline data; loader_name := string t;
       info_mem_lower := info_mem_lower data;
       info_mem_upper := info_mem_upper data |}
  else if type t =? MULTIBOOT_TAG_TYPE_MODULE h then data
  else if type t =? MULTIBOOT_TAG_TYPE_BASIC_MEMINFO h then
    {| cmdline := cmdline data; loader_name := loader_name data;
       info_mem_lower := mem_lower t; info_mem_upper := mem_upper t |}
  else if type t =? MULTIBOOT_TAG_TYPE_BOOTDEV h then data
  else data.

(** The [while] loop.  [tag] is the tag pointer, as a byte offset from
    [ptr]; the tag area [l] starts at [ptr + 8]. *)
Fixpoint read_loop (fuel : nat) (l : list multiboot_tag_t) (tag : Z)
  (data : boot_info_t) : outcome :=
  match fuel with
  | O => OutOfFuel
  | S fuel' =>
    match tag_at l (tag - 8) with
    | None => Fault
    | Some t =>
      if type t =? MULTIBOOT_TAG_TYPE_END h then Done data
      else read_loop fuel' l (tag + advance (size t)) (switch_tag t data)
    end
  end.

Definition read_boot_tags (fuel : nat) (l : list multiboot_tag_t) : outcome :=
  read_loop fuel l (0 + 8) zeroed.

(** [read_boot_tags] returns [data] on the tag area [l]. *)
Definition returns (l : list multiboot_tag_t) (data : boot_info_t) : Prop :=
  exists fuel, read_boot_tags fuel l = Done data.

(** [read_boot_tags] never returns on [l]: the loop is still running after
    any number of iterations. *)
Definition diverges (l : list multiboot_tag_t) : Prop :=
  forall fuel, read_boot_tags fuel l = OutOfFuel.



(** The list holds an END tag. *)
Definition end_terminated (l : list multiboot_tag_t) : Prop :=
  Exists (fun t => type t = MULTIBOOT_TAG_TYPE_END h) l.

(** Every tag that is not an END tag has a size between [lo] and [hi]. *)
Definition sizes_within (lo hi : Z) (l : list multiboot_tag_t) : Prop :=
  Forall (fun t => type t <> MULTIBOOT_TAG_TYPE_END h -> lo <= size t <= hi) l.

End ReadBootTags.

(** A tag with the given type and size, whose other members are zero. *)
Definition plain_tag (ty sz : Z) : multiboot_tag_t :=
  {| type := ty; size := sz; string := 0; mem_lower := 0; mem_upper := 0 |}.

(** A boot information area in the Multiboot2 format: a command line, a
    module, the memory sizes, the boot device and the END tag. *)
Definition sample_area : list multiboot_tag_t :=
  [ {| type := 1; size := 21; string := 4096; mem_lower := 0; mem_upper := 0 |};
    plain_tag 3 29;
    {| type := 4; size := 16; string := 0; mem_lower := 639; mem_upper := 130048 |};
    plain_tag 5 20;
    plain_tag 0 8 ].


(** A tag area whose first tag announces the size [0xFFFFFFFF], followed by
    the END tag. *)
Definition oversized_area : list multiboot_tag_t :=
  [ plain_tag 3 4294967295; plain_tag 0 8 ].

(** The tags the loop visits: those before the first END tag. *)
Fixpoint before_end (h : tag_types) (l : list multiboot_tag_t)
  : list multiboot_tag_t :=
  match l with
  | [] => []
  | t :: r =>
    if type t =? MULTIBOOT_TAG_TYPE_END h then [] else t :: before_end h r
  end.

(** The body of the [switch], applied to a sequence of tags in order. *)
Definition apply_tags (h : tag_types) (ts : list multiboot_tag_t)
  (data : boot_info_t) : boot_info_t :=
  fold_left (fun d t => switch_tag h t d) ts data.

(** The last tag of type [ty] in a sequence. *)
Fixpoint last_with (ty : Z) (ts : list multiboot_tag_t)
  : option multiboot_tag_t :=
  match ts with
  | [] => None
  | t :: r =>
    match last_with ty r with
    | Some u => Some u
    | None => if type t =? ty then Some t else None
    end
  end.


(** A second command line tag, after the sample's. *)
Definition two_cmdlines : list multiboot_tag_t :=
  [ {| type := 1; size := 21; string := 4096; mem_lower := 0; mem_upper := 0 |};
    plain_tag 9 12;
    {| type := 1; size := 12; string := 8192; mem_lower := 0; mem_upper := 0 |};
    plain_tag 0 8;
    {| type := 1; size := 12; string := 12288; mem_lower := 0; mem_upper := 0 |} ].

End Multiboot.

(** ** Observable operations *)

Module Machine.

(** General-purpose registers. *)
Inductive reg : Type := EAX | EBX | ECX | EDX | ESI | EDI | EBP | ESP.

(** Segment registers. *)
Inductive sreg : Type := CS | DS | ES | FS | GS | SS.

(** The external functions the two routines call. *)
Inductive symbol : Type := pic_EOI | process_exit.

Scheme Equality for reg.
Scheme Equality for sreg.
Scheme Equality for symbol.

(** The hardware-visible operations, in the order they are performed. *)
Inductive event : Type :=
| EvLoadSeg (s : sreg) (selector : Z)
| EvPush (v : Z)
| EvCall (f : symbol) (args : list Z)
| EvSti
| EvTrap (vector : Z)
| EvIret.

(** The argument lists of the calls to [f], in order. *)
Fixpoint calls_to (f : symbol) (tr : list event) : list (list Z) :=
  match tr with
  | [] => []
  | EvCall g args :: tr' =>
    if symbol_beq f g then args :: calls_to f tr' else calls_to f tr'
  | _ :: tr' => calls_to f tr'
  end.

(** The events that precede the first [sti]. *)
Fixpoint before_sti (tr : list event) : list event :=
  match tr with
  | [] => []
  | EvSti :: _ => []
  | e :: tr' => e :: before_sti tr'
  end.

(** The number of times interrupts are re-enabled. *)
Fixpoint count_sti (tr : list event) : nat :=
  match tr with
  | [] => 0
  | EvSti :: tr' => S (count_sti tr')
  | _ :: tr' => count_sti tr'
  end.

(** Modelled from the spec: the Register Frame of section 3 ([regs_t], whose
    declaration is not among the sources): the general-purpose registers,
    the four data segment selectors, the saved flags, the instruction
    pointer with its code segment selector, and the stack pointer with its
    stack segment selector. *)
Record regs_t : Type := {
  eax : Z; ebx : Z; ecx : Z; edx : Z;
  esi : Z; edi : Z; ebp : Z;
  ds : Z; es : Z; fs : Z; gs : Z;
  eflags : Z;
  eip : Z; cs : Z;
  esp : Z; ss : Z
}.

End Machine.

(** ** src/process/context_switch.s *)

Module X86.
Import Word Machine.

(** The CPU and its memory: 32-bit words at byte addresses. *)
Record state : Type := {
  gpr : reg -> Z;
  seg : sreg -> Z;
  flags : Z;
  pc : Z;
  mem : Z -> Z
}.

Definition set_gpr (r : reg) (v : Z) (s : state) : state :=
  {| gpr := fun x => if reg_beq x r then v else gpr s x;
     seg := seg s; flags := flags s; pc := pc s; mem := mem s |}.

Definition set_seg (r : sreg) (v : Z) (s : state) : state :=
  {| gpr := gpr s;
     seg := fun x => if sreg_beq x r then v else seg s x;
     flags := flags s; pc := pc s; mem := mem s |}.

Definition set_flags (v : Z) (s : state) : state :=
  {| gpr := gpr s; seg := seg s; flags := v; pc := pc s; mem := mem s |}.

Definition set_pc (v : Z) (s : state) : state :=
  {| gpr := gpr s; seg := seg s; flags := flags s; pc := v; mem := mem s |}.

Definition store (a v : Z) (s : state) : state :=
  {| gpr := gpr s; seg := seg s; flags := flags s; pc := pc s;
     mem := fun x => if x =? a then v else mem s x |}.

(** The word at [disp(base)]. *)
Definition load (s : state) (base : reg) (disp : Z) : Z :=
  mem s (offset (gpr s base) disp).

(** [push]: the stack pointer is decremented by 4, then the word is
    stored at the new top of the stack. *)
Definition push (v : Z) (s : state) : state :=
  let sp := offset (gpr s ESP) (-4) in
  store sp v (set_gpr ESP sp s).

(** The interrupt flag, bit 9 of the flags register. *)
Definition IF : Z := 512.

(** The privilege level of a selector: its two low bits. *)
Definition rpl (selector : Z) : Z := Z.land selector 3.

(** The current privilege level. *)
Definition cpl (s : state) : Z := rpl (seg s CS).

(** The instructions of the routine, operands in AT&T order. *)
Inductive instr : Type :=
| mov_rr (src dst : reg)
| mov_mr (disp : Z) (base : reg) (dst : reg)
| mov_rs (src : reg) (dst : sreg)
| push_r (src : reg)
| push_m (disp : Z) (base : reg)
| push_i (imm : Z)
| pushf
| call (f : symbol)
| add_ir (imm : Z) (dst : reg)
| sti
| iret.

(** The number of stack arguments of an external function, as the calls in
    the sources pass them. *)
Definition arity (f : symbol) : nat :=
  match f with
  | pic_EOI => 1
  | process_exit => 2
  end.

(** The [n] words of the stack starting [disp] bytes above its top. *)
Fixpoint stack_words (s : state) (disp : Z) (n : nat) : list Z :=
  match n with
  | O => []
  | S n' => load s ESP disp :: stack_words s (disp + 4) n'
  end.

(** The registers a called function may overwrite. *)
Record scratch : Type := { ret_eax : Z; ret_ecx : Z; ret_edx : Z }.

Section Exec.

(** What an external function leaves in the registers the calling convention
    lets it overwrite, given its arguments.  It preserves the other
    registers and what lies above the stack pointer. *)
Variable callee : symbol -> list Z -> scratch.

(** One instruction other than [iret], with the operations it performs. *)
Definition exec (i : instr) (s : state) : state * list event :=
  match i with
  | mov_rr src dst => (set_gpr dst (gpr s src) s, [])
  | mov_mr disp base dst => (set_gpr dst (load s base disp) s, [])
  | mov_rs src dst =>
    let v := low16 (gpr s src) in (set_seg dst v s, [EvLoadSeg dst v])
  | push_r src => let v := gpr s src in (push v s, [EvPush v])
  | push_m disp base => let v := load s base disp in (push v s, [EvPush v])
  | push_i imm => (push imm s, [EvPush imm])
  | pushf => let v := flags s in (push v s, [EvPush v])
  | call f =>
    let args := stack_words s 0 (arity f) in
    let r := callee f args in
    (set_gpr EDX (ret_edx r) (set_gpr ECX (ret_ecx r) (set_gpr EAX (ret_eax r) s)),
     [EvCall f args])
  | add_ir imm dst => (set_gpr dst (wrap (gpr s dst + imm)) s, [])
  | sti => (set_flags (Z.lor (flags s) IF) s, [EvSti])
  | iret => (s, [])
  end.

(** How a routine ends: it ran off its last instruction, [iret] transferred
    control, or [iret] raised a protection fault. *)
Inductive outcome : Type :=
| FellThrough (s : state)
| Resumed (s : state)
| Faulted (s : state).

(** [iret] pops the instruction pointer, the code segment selector and the
    flags; when the popped selector asks for a less privileged level than
    the current one it also pops the stack pointer and the stack segment
    selector.  Returning to a more privileged level is a fault. *)
Definition do_iret (s : state) : outcome :=
  let new_pc := load s ESP 0 in
  let new_cs := low16 (load s ESP 4) in
  let new_flags := load s ESP 8 in
  let s1 := set_flags new_flags (set_seg CS new_cs (set_pc new_pc s)) in
  if rpl new_cs <? cpl s then Faulted s
  else if rpl new_cs =? cpl s then
    Resumed (set_gpr ESP (offset (gpr s ESP) 12) s1)
  else
    Resumed (set_seg SS (low16 (load s ESP 16))
               (set_gpr ESP (load s ESP 12) s1)).

(** A straight-line routine, up to and including its first [iret]. *)
Fixpoint run (code : list instr) (s : state) : outcome * list event :=
  match code with
  | [] => (FellThrough s, [])
  | iret :: _ => (do_iret s, [EvIret])
  | i :: rest =>
    let (s', e1) := exec i s in
    let (o, e2) := run rest s' in
    (o, e1 ++ e2)
  end.

(** The state in which the first [iret] of the routine is reached. *)
Fixpoint at_iret (code : list instr) (s : state) : option state :=
  match code with
  | [] => None
  | iret :: _ => Some s
  | i :: rest => at_iret rest (fst (exec i s))
  end.

End Exec.

(** The listing of [context_switch]. *)
Definition context_switch : list instr :=
  [ mov_rr ESP EBP;
    mov_mr 12 EBP EAX;
    mov_rs EAX DS;
    mov_rs EAX ES;
    mov_rs EAX FS;
    mov_rs EAX GS;
    push_r EAX;
    push_m 4 EBP;
    pushf;
    push_m 16 EBP;
    push_m 8 EBP;
    push_i 0;
    call pic_EOI;
    add_ir 4 ESP;
    sti;
    iret ].

(** The [n]-th stack argument of the routine on entry (the return address
    is at the top of the stack). *)
Definition arg (s : state) (n : Z) : Z := load s ESP (4 * n).

(** The words the routine has left on the stack: those between the current
    top of the stack and the top of the stack on entry, topmost first. *)
Definition pushed_words (entry now : state) : list Z :=
  stack_words now 0
    (Z.to_nat (wrap (gpr entry ESP - gpr now ESP) / 4)).

(** The part of a return stack image that lies beneath the instruction
    pointer, the code segment selector and the flags. *)
Definition stack_pair (image : list Z) : list Z := skipn 3 image.

(** The C caller's side of [context_switch(esp, eip, data_selector,
    code_selector)]: the arguments pushed from right to left, then the
    return address. *)
Definition call_context_switch
  (esp_ eip_ data_selector code_selector ret : Z) (s : state) : state :=
  push ret (push esp_ (push eip_ (push data_selector (push code_selector s)))).

(** The frame a suspension captures from the CPU. *)
Definition capture (s : state) : regs_t :=
  {| eax := gpr s EAX; ebx := gpr s EBX; ecx := gpr s ECX;
     edx := gpr s EDX; esi := gpr s ESI; edi := gpr s EDI;
     ebp := gpr s EBP;
     ds := seg s DS; es := seg s ES; fs := seg s FS; gs := seg s GS;
     eflags := flags s;
     eip := pc s; cs := seg s CS;
     esp := gpr s ESP; ss := seg s SS |}.

(** The return stack image [iret] finds, when the routine reaches it. *)
Definition image_at_iret (callee : symbol -> list Z -> scratch)
  (s : state) : option (list Z) :=
  option_map (pushed_words s) (at_iret callee context_switch s).

(** An interrupt delivery that [context_switch] concludes: the vector that
    caused the entry, and the CPU when the routine is entered. *)
Record delivery : Type := { vector : Z; entry : state }.

(** The lines acknowledged while the delivery is concluded. *)
Definition acknowledged (callee : symbol -> list Z -> scratch)
  (d : delivery) : list (list Z) :=
  calls_to pic_EOI (snd (run callee context_switch (entry d))).

(** The acknowledged line is computed from the entry vector by a derivation
    that tells vectors apart. *)
Definition line_derived_from_vector
  (callee : symbol -> list Z -> scratch) : Prop :=
  exists line : Z -> Z,
    (exists v w, line v <> line w) /\
    forall d, acknowledged callee d = [[line (vector d)]].

(** Switching to a frame: the routine is called with the frame's stack
    pointer, instruction pointer, data segment selector and code segment
    selector. *)
Definition switch_to (callee : symbol -> list Z -> scratch)
  (ret : Z) (kernel : state) (f : regs_t) : outcome * list event :=
  run callee context_switch
    (call_context_switch (esp f) (eip f) (ds f) (cs f) ret kernel).

(** Switching to a frame and suspending the destination at once: the frame
    captured where the switch resumed. *)
Definition resuspend (callee : symbol -> list Z -> scratch)
  (ret : Z) (kernel : state) (f : regs_t) : option regs_t :=
  match fst (switch_to callee ret kernel f) with
  | Resumed s => Some (capture s)
  | _ => None
  end.

(** A called function that leaves zeros in the registers it may overwrite. *)
Definition quiet (f : symbol) (args : list Z) : scratch :=
  {| ret_eax := 0; ret_ecx := 0; ret_edx := 0 |}.

(** A kernel context: ring 0 selectors, interrupts disabled, its stack at
    [0x9000]. *)
Definition kernel0 : state :=
  {| gpr := fun r => match r with
                     | ESP => 36864 | EBP => 36880 | EBX => 11
                     | ESI => 12 | EDI => 13 | _ => 0
                     end;
     seg := fun r => match r with CS => 8 | _ => 16 end;
     flags := 2; pc := 1048576; mem := fun _ => 0 |}.

(** A switch from the kernel to a ring 0 context: the code segment selector
    passed is the kernel's own. *)
Definition same_ring_entry : state :=
  call_context_switch 32768 1048832 16 8 1052672 kernel0.

(** A switch from the kernel to a ring 3 context. *)
Definition user_entry : state :=
  call_context_switch 3221221360 134512640 35 27 1052672 kernel0.

(** The frame of a suspended ring 3 process: interrupts were enabled when
    it was interrupted. *)
Definition user_frame : regs_t :=
  {| eax := 7; ebx := 1; ecx := 2; edx := 3; esi := 4; edi := 5;
     ebp := 3221221376;
     ds := 35; es := 35; fs := 35; gs := 35;
     eflags := 514;
     eip := 134512640; cs := 27;
     esp := 3221221360; ss := 35 |}.



End X86.

(** ** The exit system call: sys_exit *)

Module Syscall.
Import Machine.

(** The expressions passed to the calls of [sys_exit]. *)
Inductive expr : Type :=
| Eprocess
| Eregisters_ebx
| Econst (n : Z).

(** The statements of [sys_exit]. *)
#[warnings="-register-all"]
Inductive stmt : Type :=
| Scall (f : symbol) (args : list expr)
| STI
| Sasm_int (vector : Z)
| Swhile_1 (body : list stmt).

(** The body of [sys_exit(process, registers)]:
    [process_exit(process, registers->ebx); pic_EOI(0x80); STI();
     asm("int $0x20"); while(1) ;] *)
Definition sys_exit : list stmt :=
  [ Scall process_exit [Eprocess; Eregisters_ebx];
    Scall pic_EOI [Econst 128];
    STI;
    Sasm_int 32;
    Swhile_1 [] ].

(** Where control is: in the function, with the statements still to
    execute; back in the caller; or away, transferred by a trap that never
    resumed this context. *)
Inductive control : Type :=
| Exec (k : list stmt)
| Returned
| Away.

Record config : Type := { ctl : control; out : list event }.

Section Run.

(** The arguments of the call: the process, as its address, and the
    register frame it trapped with. *)
Variable process : Z.
Variable registers : regs_t.

Definition eval (e : expr) : Z :=
  match e with
  | Eprocess => process
  | Eregisters_ebx => ebx registers
  | Econst n => n
  end.

(** One step.  A called function returns; a software trap either resumes
    this context after its handler ([resumes]) or never does; the end of
    the body is the function's return point. *)
Definition step (resumes : bool) (c : config) : config :=
  match ctl c with
  | Exec [] => {| ctl := Returned; out := out c |}
  | Exec (Scall f args :: k) =>
    {| ctl := Exec k; out := out c ++ [EvCall f (map eval args)] |}
  | Exec (STI :: k) => {| ctl := Exec k; out := out c ++ [EvSti] |}
  | Exec (Sasm_int v :: k) =>
    {| ctl := if resumes then Exec k else Away;
       out := out c ++ [EvTrap v] |}
  | Exec (Swhile_1 body :: k) =>
    {| ctl := Exec (body ++ Swhile_1 body :: k); out := out c |}
  | Returned => c
  | Away => c
  end.

(** [n] steps of a function body; [env i] tells whether a trap taken at
    step [i] resumes this context. *)
Fixpoint run (env : nat -> bool) (body : list stmt) (n : nat) : config :=
  match n with
  | O => {| ctl := Exec body; out := [] |}
  | S n' => step (env n') (run env body n')
  end.

End Run.

(** The operations of a complete [sys_exit]. *)
Definition sys_exit_trace (process : Z) (registers : regs_t) : list event :=
  [ EvCall process_exit [process; ebx registers];
    EvCall pic_EOI [128];
    EvSti;
    EvTrap 32 ].

End Syscall.

(** * Properties *)

Module WordFacts.
Import Word.

Lemma modulus_pos : 0 < modulus.
Proof. unfold modulus. lia. Qed.

Lemma wrap_small z : is_word z -> wrap z = z.
Proof. unfold is_word, wrap. intros H. now apply Z.mod_small. Qed.

Lemma wrap_is_word z : is_word (wrap z).
Proof. unfold is_word, wrap. apply Z.mod_pos_bound, modulus_pos. Qed.

Lemma wrap_ones z : wrap z = Z.land z (Z.ones 32).
Proof. unfold wrap, modulus. now rewrite Z.land_ones by lia. Qed.

Lemma land_wrap_r p z : is_word p -> Z.land p (wrap z) = Z.land p z.
Proof.
  intros Hp. rewrite wrap_ones, (Z.land_comm z), Z.land_assoc.
  rewrite <- wrap_ones, wrap_small; trivial.
Qed.

Lemma wrap_offset a d : wrap (a + d) = offset a d.
Proof. reflexivity. Qed.

Lemma offset_offset a d1 d2 : offset (offset a d1) d2 = offset a (d1 + d2).
Proof.
  unfold offset, wrap. rewrite Zplus_mod_idemp_l. f_equal. lia.
Qed.

(** Two addresses at different distances from the same base differ, unless
    the distances differ by a multiple of [2 ^ 32]. *)
Lemma offset_neq a d1 d2 : wrap (d1 - d2) <> 0 -> offset a d1 <> offset a d2.
Proof.
  unfold offset, wrap. intros H E. apply H.
  replace (d1 - d2) with ((a + d1) - (a + d2)) by lia.
  rewrite Zminus_mod, E, Z.sub_diag. reflexivity.
Qed.

Lemma offset_eqb_far a d1 d2 :
  (wrap (d1 - d2) =? 0) = false -> (offset a d1 =? offset a d2) = false.
Proof.
  intros H. apply Z.eqb_neq, offset_neq. now apply Z.eqb_neq.
Qed.

Lemma wrap_sub_offset a d : wrap (a - offset a d) = wrap (- d).
Proof.
  unfold offset, wrap. rewrite Zminus_mod_idemp_r. f_equal. lia.
Qed.

Lemma low16_ones z : low16 z = Z.land z (Z.ones 16).
Proof. unfold low16. now rewrite Z.land_ones by lia. Qed.

End WordFacts.

Module MultibootFacts.
Import Word WordFacts Multiboot.

(** *** The pointer increment *)

Lemma advance_value sz : advance sz = 8 * (wrap (sz + 7) / 8).
Proof.
  unfold advance, not32.
  rewrite land_wrap_r by apply wrap_is_word.
  change 7 with (Z.ones 3) at 2. rewrite <- Z.ldiff_land.
  rewrite Z.ldiff_ones_r by lia.
  rewrite Z.shiftr_div_pow2, Z.shiftl_mul_pow2 by lia.
  change (2 ^ 3) with 8. lia.
Qed.

Lemma advance_extent sz :
  0 <= sz <= modulus - 8 -> advance sz = extent sz.
Proof.
  intros H. rewrite advance_value. unfold extent.
  rewrite wrap_small; trivial. unfold is_word, modulus in *. lia.
Qed.

Lemma advance_stuck sz :
  is_word sz -> sz = 0 \/ modulus - 8 < sz -> advance sz = 0.
Proof.
  unfold is_word, modulus. intros Hw [-> | Hbig]; [reflexivity |].
  rewrite advance_value. unfold wrap, modulus.
  replace (sz + 7) with (sz + 7 - 2 ^ 32 + 1 * 2 ^ 32) by lia.
  rewrite Z.mod_add, Z.mod_small by lia.
  rewrite Z.div_small by lia. reflexivity.
Qed.

Lemma extent_pos sz : 1 <= sz -> 0 < extent sz.
Proof.
  intros H. unfold extent.
  assert (1 <= (sz + 7) / 8) by (apply Z.div_le_lower_bound; lia). lia.
Qed.

Lemma advance_nonneg sz : 0 <= advance sz.
Proof.
  rewrite advance_value. pose proof (wrap_is_word (sz + 7)) as [H _].
  pose proof (Z.div_pos (wrap (sz + 7)) 8 H). lia.
Qed.

(** For a 32-bit size the increment either is the tag's extent, which is
    positive, or is zero. *)
Lemma advance_cases sz :
  is_word sz ->
  (advance sz = extent sz /\ 0 < extent sz) \/ advance sz = 0.
Proof.
  intros Hw.
  destruct (Z_le_gt_dec sz 0) as [H0 | H0].
  - right. apply advance_stuck; trivial. unfold is_word in Hw. lia.
  - destruct (Z_le_gt_dec sz (modulus - 8)) as [H1 | H1].
    + left. split; [apply advance_extent | apply extent_pos]; lia.
    + right. apply advance_stuck; trivial. lia.
Qed.

Section Loop.

Variable h : tag_types.
Hypothesis Hh : distinct_types h.

Local Abbreviation END := (MULTIBOOT_TAG_TYPE_END h).

Lemma tag_at_head t r : tag_at (t :: r) (8 - 8) = Some t.
Proof. reflexivity. Qed.

Lemma tag_at_skip t r o :
  0 < extent (size t) -> 0 <= o ->
  tag_at (t :: r) (8 + extent (size t) + o - 8) = tag_at r (8 + o - 8).
Proof.
  intros He Ho. cbn [tag_at].
  destruct (Z.eqb_spec (8 + extent (size t) + o - 8) 0); [lia |].
  f_equal. lia.
Qed.

(** Once the pointer is past the first tag, the loop runs as on the rest of
    the tag area. *)
Lemma read_loop_skip fuel t r : 0 < extent (size t) ->
  forall o data, 0 <= o ->
  read_loop h fuel (t :: r) (8 + extent (size t) + o) data
  = read_loop h fuel r (8 + o) data.
Proof.
  intros He. induction fuel as [| fuel IH]; intros o data Ho; [reflexivity |].
  cbn [read_loop]. rewrite tag_at_skip by assumption.
  destruct (tag_at r (8 + o - 8)) as [t' |]; [| reflexivity].
  destruct (type t' =? END); [reflexivity |].
  pose proof (advance_nonneg (size t')).
  replace (8 + extent (size t) + o + advance (size t'))
    with (8 + extent (size t) + (o + advance (size t'))) by lia.
  rewrite IH by lia. f_equal. lia.
Qed.

(** One iteration on a tag that is not END and whose increment is its
    extent. *)
Lemma read_loop_step fuel t r data :
  type t <> END -> advance (size t) = extent (size t) ->
  0 < extent (size t) ->
  read_loop h (S fuel) (t :: r) 8 data
  = read_loop h fuel r 8 (switch_tag h t data).
Proof.
  intros Ht Ha He. cbn [read_loop]. rewrite tag_at_head.
  destruct (Z.eqb_spec (type t) END); [contradiction |].
  rewrite Ha. replace (8 + extent (size t)) with (8 + extent (size t) + 0) by lia.
  rewrite read_loop_skip by lia. reflexivity.
Qed.

(** A tag that is not END and whose increment is zero keeps the loop on
    itself. *)
Lemma read_loop_stuck t r :
  type t <> END -> advance (size t) = 0 ->
  forall fuel data, read_loop h fuel (t :: r) 8 data = OutOfFuel.
Proof.
  intros Ht Ha. induction fuel as [| fuel IH]; intros data; [reflexivity |].
  cbn [read_loop]. rewrite tag_at_head.
  destruct (Z.eqb_spec (type t) END); [contradiction |].
  rewrite Ha, Z.add_0_r. apply IH.
Qed.

Lemma read_loop_end fuel t r data :
  type t = END -> read_loop h (S fuel) (t :: r) 8 data = Done data.
Proof.
  intros Ht. cbn [read_loop]. rewrite tag_at_head.
  apply Z.eqb_eq in Ht. now rewrite Ht.
Qed.

(** The loop returns on an END-terminated area whose tags have sizes between
    1 and [2 ^ 32 - 8]. *)
Lemma read_loop_returns l :
  end_terminated h l -> sizes_within h 1 (modulus - 8) l ->
  forall data, exists fuel data', read_loop h fuel l 8 data = Done data'.
Proof.
  induction l as [| t r IH]; intros Hend Hsz data.
  - inversion Hend.
  - destruct (Z.eq_dec (type t) END) as [E | E].
    + exists 1%nat, data. now apply read_loop_end.
    + inversion Hend as [? ? H0 | ? ? Hr]; subst; [contradiction |].
      inversion Hsz as [| ? ? Ht Hsr]; subst.
      specialize (Ht E).
      destruct (IH Hr Hsr (switch_tag h t data)) as (fuel & data' & Hrun).
      exists (S fuel), data'.
      rewrite read_loop_step; trivial.
      * apply advance_extent. lia.
      * apply extent_pos. lia.
Qed.

(** *** MODULE and BOOTDEV tags *)

(** The pairwise inequalities of the six constants. *)
Ltac split_distinct H :=
  unfold distinct_types in H;
  repeat match goal with
         | N : NoDup (_ :: _) |- _ => inversion N; clear N; subst
         end;
  cbn [In] in *.






End Loop.

Lemma multiboot2_distinct : distinct_types multiboot2.
Proof.
  unfold distinct_types.
  repeat (constructor; [cbn; intuition discriminate |]). constructor.
Qed.



(** C9, as amended: on a tag list that holds an END tag and in which every
    other tag has a size between 1 and [2 ^ 32 - 8], [read_boot_tags]
    returns; each iteration advances the tag pointer by the size rounded up
    to a multiple of 8, which is positive. *)
Theorem read_boot_tags_terminates (h : tag_types) (l : list multiboot_tag_t) :
  end_terminated h l -> sizes_within h 1 (modulus - 8) l ->
  (exists fuel data, read_boot_tags h fuel l = Done data) /\
  Forall (fun t => type t <> MULTIBOOT_TAG_TYPE_END h ->
                   advance (size t) = 8 * ((size t + 7) / 8) /\
                   0 < advance (size t)) l.
Proof.
  intros Hend Hsz. split.
  - apply (read_loop_returns h l Hend Hsz zeroed).
  - revert Hsz. unfold sizes_within. apply Forall_impl.
    intros t Ht E. specialize (Ht E).
    rewrite advance_extent by lia. split; [reflexivity |].
    apply extent_pos. lia.
Qed.

Lemma read_boot_tags_terminates_witness :
  (exists fuel data, read_boot_tags multiboot2 fuel sample_area = Done data) /\
  Forall (fun t => type t <> 0 ->
                   advance (size t) = 8 * ((size t + 7) / 8) /\
                   0 < advance (size t)) sample_area.
Proof.
  apply (read_boot_tags_terminates multiboot2 sample_area).
  - unfold end_terminated, sample_area. do 4 apply Exists_cons_tl.
    apply Exists_cons_hd. reflexivity.
  - unfold sizes_within, sample_area, modulus.
    repeat constructor; cbn; lia.
Defined.

(** C9 fails for sizes above [2 ^ 32 - 8]: the area holds an END tag and its
    other tag has a size of at least 1, yet [size + 7] wraps around, the
    pointer increment is 0 and the loop stays on the first tag. *)
Lemma oversized_tag_diverges :
  well_typed oversized_area /\
  end_terminated multiboot2 oversized_area /\
  sizes_within multiboot2 1 (modulus - 1) oversized_area /\
  advance 4294967295 = 0 /\
  diverges multiboot2 oversized_area.
Proof.
  split; [| split; [| split; [| split]]].
  - repeat constructor; unfold is_word, modulus; cbn; lia.
  - apply Exists_cons_tl, Exists_cons_hd. reflexivity.
  - unfold sizes_within, modulus. repeat constructor; cbn; lia.
  - reflexivity.
  - intros fuel. unfold read_boot_tags, oversized_area.
    change (0 + 8) with 8. apply read_loop_stuck; [discriminate | reflexivity].
Qed.



(** *** The result as a function of the tags *)

Section Walk.

Variable h : tag_types.

Local Abbreviation END := (MULTIBOOT_TAG_TYPE_END h).

(** On an END-terminated area with sizes in range the loop runs once per tag
    before the END tag and once for the END tag, applying the [switch] to
    each tag in order. *)
Lemma read_loop_fold l :
  end_terminated h l -> sizes_within h 1 (modulus - 8) l ->
  forall fuel data,
    read_loop h fuel l 8 data
    = if (length (before_end h l) <? fuel)%nat
      then Done (apply_tags h (before_end h l) data)
      else OutOfFuel.
Proof.
  induction l as [| t r IH]; intros Hend Hsz fuel data; [inversion Hend |].
  cbn [before_end].
  destruct (Z.eqb_spec (type t) END) as [E | E].
  - destruct fuel as [| fuel]; [reflexivity |].
    now rewrite read_loop_end.
  - inversion Hend as [? ? H0 | ? ? Hr]; subst; [contradiction |].
    inversion Hsz as [| ? ? Ht Hsr]; subst. specialize (Ht E).
    destruct fuel as [| fuel]; [reflexivity |].
    rewrite read_loop_step; trivial.
    + rewrite IH by assumption. reflexivity.
    + apply advance_extent. lia.
    + apply extent_pos. lia.
Qed.

(** What follows the first END tag is never read. *)
Lemma read_loop_after_end pre e rest1 rest2 :
  well_typed pre -> type e = END ->
  forall fuel data,
    read_loop h fuel (pre ++ e :: rest1) 8 data
    = read_loop h fuel (pre ++ e :: rest2) 8 data.
Proof.
  intros Hw He. induction pre as [| t r IH]; intros fuel data.
  - destruct fuel as [| fuel]; [reflexivity |].
    cbn [app]. now rewrite !read_loop_end.
  - inversion Hw as [| ? ? Hsz Hwr]; subst.
    destruct fuel as [| fuel]; [reflexivity |].
    cbn [app]. destruct (Z.eq_dec (type t) END) as [E | E].
    + now rewrite !read_loop_end.
    + destruct (advance_cases (size t) Hsz) as [[Ha Hpos] | Ha].
      * rewrite !read_loop_step by assumption. now apply IH.
      * now rewrite !read_loop_stuck.
Qed.



(** Each field of the result is taken from the last tag of its type. *)
Lemma apply_tags_cmdline ts : forall data,
  cmdline (apply_tags h ts data)
  = match last_with (MULTIBOOT_TAG_TYPE_CMDLINE h) ts with
    | Some t => string t
    | None => cmdline data
    end.
Proof.
  induction ts as [| t r IH]; intros data; [reflexivity |].
  unfold apply_tags in *. cbn [fold_left last_with]. rewrite IH.
  destruct (last_with (MULTIBOOT_TAG_TYPE_CMDLINE h) r); [reflexivity |].
  unfold switch_tag.
  repeat match goal with
         | |- context [?a =? ?b] => destruct (Z.eqb_spec a b)
         end; reflexivity.
Qed.

Hypothesis Hh : distinct_types h.

Ltac split_distinct H :=
  unfold distinct_types in H;
  repeat match goal with
         | N : NoDup (_ :: _) |- _ => inversion N; clear N; subst
         end;
  cbn [In] in *.

Lemma apply_tags_loader_name ts : forall data,
  loader_name (apply_tags h ts data)
  = match last_with (MULTIBOOT_TAG_TYPE_BOOT_LOADER_NAME h) ts with
    | Some t => string t
    | None => loader_name data
    end.
Proof.
  pose proof Hh as D. split_distinct D.
  induction ts as [| t r IH]; intros data; [reflexivity |].
  unfold apply_tags in *. cbn [fold_left last_with]. rewrite IH.
  destruct (last_with (MULTIBOOT_TAG_TYPE_BOOT_LOADER_NAME h) r);
    [reflexivity |].
  unfold switch_tag.
  repeat match goal with
         | |- context [?a =? ?b] => destruct (Z.eqb_spec a b)
         end; try reflexivity; exfalso; intuition congruence.
Qed.

Lemma apply_tags_meminfo ts : forall data,
  (info_mem_lower (apply_tags h ts data), info_mem_upper (apply_tags h ts data))
  = match last_with (MULTIBOOT_TAG_TYPE_BASIC_MEMINFO h) ts with
    | Some t => (mem_lower t, mem_upper t)
    | None => (info_mem_lower data, info_mem_upper data)
    end.
Proof.
  pose proof Hh as D. split_distinct D.
  induction ts as [| t r IH]; intros data; [reflexivity |].
  unfold apply_tags in *. cbn [fold_left last_with]. rewrite IH.
  destruct (last_with (MULTIBOOT_TAG_TYPE_BASIC_MEMINFO h) r);
    [reflexivity |].
  unfold switch_tag.
  repeat match goal with
         | |- context [?a =? ?b] => destruct (Z.eqb_spec a b)
         end; try reflexivity; exfalso; intuition congruence.
Qed.

End Walk.

(** On a tag area that holds an END tag and whose other tags have sizes
    between 1 and [2 ^ 32 - 8], [read_boot_tags] runs one iteration per tag
    before the first END tag and one for that END tag, and returns the zeroed
    structure to which the [switch] was applied for each of these tags in
    order; with fewer iterations it has not returned yet. *)
Theorem read_boot_tags_fold (h : tag_types) (l : list multiboot_tag_t) (fuel : nat) :
  end_terminated h l -> sizes_within h 1 (modulus - 8) l ->
  read_boot_tags h fuel l
  = if (length (before_end h l) <? fuel)%nat
    then Done (apply_tags h (before_end h l) zeroed)
    else OutOfFuel.
Proof.
  intros Hend Hsz. unfold read_boot_tags. change (0 + 8) with 8.
  now apply read_loop_fold.
Qed.

Lemma sample_area_well_formed :
  end_terminated multiboot2 sample_area /\
  sizes_within multiboot2 1 (modulus - 8) sample_area.
Proof.
  split.
  - unfold end_terminated, sample_area. do 4 apply Exists_cons_tl.
    apply Exists_cons_hd. reflexivity.
  - unfold sizes_within, sample_area, modulus. repeat constructor; cbn; lia.
Qed.

Lemma two_cmdlines_well_formed :
  end_terminated multiboot2 two_cmdlines /\
  sizes_within multiboot2 1 (modulus - 8) two_cmdlines.
Proof.
  split.
  - unfold end_terminated, two_cmdlines. do 3 apply Exists_cons_tl.
    apply Exists_cons_hd. reflexivity.
  - unfold sizes_within, two_cmdlines, modulus. repeat constructor; cbn; lia.
Qed.

Lemma read_boot_tags_fold_witness :
  read_boot_tags multiboot2 5 sample_area
  = if (length (before_end multiboot2 sample_area) <? 5)%nat
    then Done (apply_tags multiboot2 (before_end multiboot2 sample_area) zeroed)
    else OutOfFuel.
Proof.
  apply (read_boot_tags_fold multiboot2 sample_area 5);
    apply sample_area_well_formed.
Defined.

(** What follows the first END tag has no effect on [read_boot_tags]: two
    areas that agree up to and including their first END tag give the same
    outcome after every number of iterations. *)
Theorem tags_after_end_ignored (h : tag_types)
  (pre : list multiboot_tag_t) (e : multiboot_tag_t)
  (rest1 rest2 : list multiboot_tag_t) (fuel : nat) :
  well_typed pre -> type e = MULTIBOOT_TAG_TYPE_END h ->
  read_boot_tags h fuel (pre ++ e :: rest1)
  = read_boot_tags h fuel (pre ++ e :: rest2).
Proof.
  intros Hw He. unfold read_boot_tags. now apply read_loop_after_end.
Qed.

Lemma tags_after_end_ignored_witness :
  read_boot_tags multiboot2 4
    ([plain_tag 1 21; plain_tag 4 16] ++ plain_tag 0 8 :: [plain_tag 1 12])
  = read_boot_tags multiboot2 4
    ([plain_tag 1 21; plain_tag 4 16] ++ plain_tag 0 8 :: []).
Proof.
  apply (tags_after_end_ignored multiboot2
           [plain_tag 1 21; plain_tag 4 16] (plain_tag 0 8)
           [plain_tag 1 12] [] 4).
  - repeat constructor; unfold is_word, modulus; cbn; lia.
  - reflexivity.
Defined.





(** On a tag area that holds an END tag and whose other tags have sizes in
    range, each field of the result comes from the last tag of its type
    before the first END tag: [cmdline] from the last CMDLINE tag,
    [loader_name] from the last BOOT_LOADER_NAME tag, [mem_lower] and
    [mem_upper] from the last BASIC_MEMINFO tag; a field with no such tag is
    zero. *)
Theorem fields_from_last_tag (h : tag_types) (l : list multiboot_tag_t) :
  distinct_types h ->
  end_terminated h l -> sizes_within h 1 (modulus - 8) l ->
  exists data,
    returns h l data /\
    cmdline data
    = match last_with (MULTIBOOT_TAG_TYPE_CMDLINE h) (before_end h l) with
      | Some t => string t
      | None => 0
      end /\
    loader_name data
    = match last_with (MULTIBOOT_TAG_TYPE_BOOT_LOADER_NAME h) (before_end h l) with
      | Some t => string t
      | None => 0
      end /\
    (info_mem_lower data, info_mem_upper data)
    = match last_with (MULTIBOOT_TAG_TYPE_BASIC_MEMINFO h) (before_end h l) with
      | Some t => (mem_lower t, mem_upper t)
      | None => (0, 0)
      end.
Proof.
  intros Hh Hend Hsz.
  exists (apply_tags h (before_end h l) zeroed). split; [| split; [| split]].
  - exists (S (length (before_end h l))). unfold read_boot_tags.
    change (0 + 8) with 8. rewrite read_loop_fold by assumption.
    rewrite (proj2 (Nat.ltb_lt _ _)); [reflexivity | lia].
  - apply apply_tags_cmdline.
  - now apply apply_tags_loader_name.
  - now apply apply_tags_meminfo.
Qed.

Lemma fields_from_last_tag_witness :
  exists data,
    returns multiboot2 two_cmdlines data /\
    cmdline data
    = match last_with 1 (before_end multiboot2 two_cmdlines) with
      | Some t => string t
      | None => 0
      end /\
    loader_name data
    = match last_with 2 (before_end multiboot2 two_cmdlines) with
      | Some t => string t
      | None => 0
      end /\
    (info_mem_lower data, info_mem_upper data)
    = match last_with 4 (before_end multiboot2 two_cmdlines) with
      | Some t => (mem_lower t, mem_upper t)
      | None => (0, 0)
      end.
Proof.
  apply (fields_from_last_tag multiboot2 two_cmdlines multiboot2_distinct);
    apply two_cmdlines_well_formed.
Defined.

End MultibootFacts.

Module X86Facts.
Import Word WordFacts Machine X86.

Local Opaque offset wrap low16 Z.lor Z.eqb.

(** Symbolic execution: every address is brought to the form
    [offset base d], then the comparisons of addresses are decided. *)
Ltac stack_simpl :=
  cbn; rewrite ?wrap_offset; rewrite ?offset_offset; cbn;
  repeat (first [ rewrite Z.eqb_refl
                | rewrite offset_eqb_far by (vm_compute; reflexivity) ]; cbn).

Lemma rpl_low16 z : rpl (low16 z) = rpl z.
Proof.
  unfold rpl. rewrite low16_ones, <- Z.land_assoc. reflexivity.
Qed.

(** A routine that reaches an [iret] ends with what [iret] does there, and
    [iret] is its last operation. *)
Lemma run_at_iret callee code : forall s s',
  at_iret callee code s = Some s' ->
  fst (run callee code s) = do_iret s' /\
  exists tr, snd (run callee code s) = tr ++ [EvIret].
Proof.
  induction code as [| i rest IH]; intros s s' H; [discriminate |].
  destruct i; cbn [at_iret run] in *;
    try (destruct (exec callee _ s) as [s1 e1] eqn:E; cbn [fst] in H;
         destruct (IH _ _ H) as [Hf [tr Ht]];
         destruct (run callee rest s1) as [o e2]; cbn [fst snd] in *;
         split; [assumption | exists (e1 ++ tr); rewrite Ht; apply app_assoc]).
  injection H as <-. split; [reflexivity | now exists []].
Qed.

Section ContextSwitch.

Variable callee : symbol -> list Z -> scratch.
Variable s : state.

(** The operations of the routine. *)
Lemma context_switch_trace :
  snd (run callee context_switch s) =
  [ EvLoadSeg DS (low16 (arg s 3)); EvLoadSeg ES (low16 (arg s 3));
    EvLoadSeg FS (low16 (arg s 3)); EvLoadSeg GS (low16 (arg s 3));
    EvPush (arg s 3); EvPush (arg s 1); EvPush (flags s);
    EvPush (arg s 4); EvPush (arg s 2);
    EvPush 0; EvCall pic_EOI [0];
    EvSti;
    EvIret ].
Proof. unfold context_switch, arg, load. stack_simpl. reflexivity. Qed.

(** The CPU when the routine reaches [iret]. *)
Lemma context_switch_at_iret :
  exists s',
    at_iret callee context_switch s = Some s' /\
    gpr s' ESP = offset (gpr s ESP) (-20) /\
    stack_words s' 0 5 = [arg s 2; arg s 4; flags s; arg s 1; arg s 3] /\
    (seg s' DS = low16 (arg s 3) /\ seg s' ES = low16 (arg s 3) /\
     seg s' FS = low16 (arg s 3) /\ seg s' GS = low16 (arg s 3)) /\
    (seg s' CS = seg s CS /\ seg s' SS = seg s SS) /\
    (gpr s' EBP = gpr s ESP /\ gpr s' EBX = gpr s EBX /\
     gpr s' ESI = gpr s ESI /\ gpr s' EDI = gpr s EDI) /\
    (gpr s' EAX = ret_eax (callee pic_EOI [0]) /\
     gpr s' ECX = ret_ecx (callee pic_EOI [0]) /\
     gpr s' EDX = ret_edx (callee pic_EOI [0])) /\
    flags s' = Z.lor (flags s) IF.
Proof.
  eexists. split; [reflexivity |].
  unfold arg, load. repeat split; stack_simpl; reflexivity.
Qed.

Lemma context_switch_image :
  image_at_iret callee s = Some [arg s 2; arg s 4; flags s; arg s 1; arg s 3].
Proof.
  unfold image_at_iret.
  destruct context_switch_at_iret as (s' & -> & Hsp & Hw & _).
  cbn [option_map]. unfold pushed_words.
  rewrite Hsp, wrap_sub_offset.
  change (Z.to_nat (wrap (- -20) / 4)) with 5%nat. now rewrite Hw.
Qed.

End ContextSwitch.

(** A switch to a less privileged level resumes the destination; this is
    the CPU it resumes with. *)
Lemma context_switch_resumes callee s :
  cpl s < rpl (arg s 4) ->
  exists s',
    fst (run callee context_switch s) = Resumed s' /\
    (pc s' = arg s 2 /\ seg s' CS = low16 (arg s 4) /\
     gpr s' ESP = arg s 1 /\ seg s' SS = low16 (arg s 3)) /\
    (seg s' DS = low16 (arg s 3) /\ seg s' ES = low16 (arg s 3) /\
     seg s' FS = low16 (arg s 3) /\ seg s' GS = low16 (arg s 3)) /\
    flags s' = flags s /\
    (gpr s' EBP = gpr s ESP /\ gpr s' EBX = gpr s EBX /\
     gpr s' ESI = gpr s ESI /\ gpr s' EDI = gpr s EDI) /\
    (gpr s' EAX = ret_eax (callee pic_EOI [0]) /\
     gpr s' ECX = ret_ecx (callee pic_EOI [0]) /\
     gpr s' EDX = ret_edx (callee pic_EOI [0])).
Proof.
  intros Hring.
  destruct (context_switch_at_iret callee s)
    as (s1 & Hat & _ & Hw & Hsegs & (Hcs & _) & Hkeep & Hscr & _).
  destruct (run_at_iret callee context_switch s s1 Hat) as [-> _].
  cbn [stack_words] in Hw.
  injection Hw as W0 W4 W8 W12 W16.
  change (0 + 4) with 4 in W4. change (0 + 4 + 4) with 8 in W8.
  change (0 + 4 + 4 + 4) with 12 in W12.
  change (0 + 4 + 4 + 4 + 4) with 16 in W16.
  unfold do_iret, cpl. rewrite W0, W4, W8, W12, W16, Hcs, rpl_low16.
  unfold cpl in Hring.
  destruct (Z.ltb_spec (rpl (arg s 4)) (rpl (seg s CS))); [lia |].
  destruct (Z.eqb_spec (rpl (arg s 4)) (rpl (seg s CS))); [lia |].
  eexists. split; [reflexivity |]. cbn.
  destruct Hsegs as (-> & -> & -> & ->).
  destruct Hkeep as (-> & -> & -> & ->).
  destruct Hscr as (-> & -> & ->).
  repeat split; reflexivity.
Qed.

(** C1: the operations of [context_switch] occur in this order, whatever the
    state it is entered in: the four data segment selectors are loaded, the
    return stack image is pushed (stack segment, stack pointer, flags, code
    segment, instruction pointer), [pic_EOI] is called, [sti] is executed,
    and [iret], which acts on that image, is the last operation. *)
Theorem context_switch_order (callee : symbol -> list Z -> scratch) (s : state) :
  snd (run callee context_switch s) =
    map (fun r => EvLoadSeg r (low16 (arg s 3))) [DS; ES; FS; GS]
    ++ map EvPush [arg s 3; arg s 1; flags s; arg s 4; arg s 2]
    ++ [EvPush 0; EvCall pic_EOI [0]]
    ++ [EvSti]
    ++ [EvIret] /\
  image_at_iret callee s = Some [arg s 2; arg s 4; flags s; arg s 1; arg s 3] /\
  exists s', at_iret callee context_switch s = Some s' /\
             fst (run callee context_switch s) = do_iret s'.
Proof.
  split; [| split].
  - rewrite context_switch_trace. reflexivity.
  - apply context_switch_image.
  - destruct (context_switch_at_iret callee s) as (s' & Hs' & _).
    exists s'. split; [assumption |].
    now apply run_at_iret.
Qed.

(** C5, as amended: the stack pointer and stack segment selector pair is
    always part of the return stack image [context_switch] constructs,
    whatever the current and the destination privilege levels are. *)
Theorem stack_pair_always_pushed
  (callee : symbol -> list Z -> scratch) (s : state) :
  option_map stack_pair (image_at_iret callee s) = Some [arg s 1; arg s 3].
Proof. rewrite context_switch_image. reflexivity. Qed.

(** C5 fails when the destination privilege level is the current one: the
    pair is pushed all the same. *)
Lemma same_ring_pair_pushed :
  rpl (arg same_ring_entry 4) = cpl same_ring_entry /\
  option_map stack_pair (image_at_iret quiet same_ring_entry)
  = Some [32768; 16] /\
  option_map stack_pair (image_at_iret quiet same_ring_entry) <> Some [].
Proof.
  split; [reflexivity |].
  assert (E : option_map stack_pair (image_at_iret quiet same_ring_entry)
              = Some [32768; 16]) by (vm_compute; reflexivity).
  split; [exact E |]. rewrite E. discriminate.
Qed.

(** The arguments the C caller passes are where the routine reads them. *)
Lemma call_context_switch_args esp_ eip_ data_selector code_selector ret k :
  let s := call_context_switch esp_ eip_ data_selector code_selector ret k in
  arg s 1 = esp_ /\ arg s 2 = eip_ /\
  arg s 3 = data_selector /\ arg s 4 = code_selector /\
  gpr s ESP = offset (gpr k ESP) (-20) /\
  flags s = flags k /\ seg s CS = seg k CS /\
  gpr s EBX = gpr k EBX /\ gpr s ESI = gpr k ESI /\ gpr s EDI = gpr k EDI.
Proof.
  unfold call_context_switch, arg, load.
  repeat split; stack_simpl; reflexivity.
Qed.

(** C4, as amended: a switch to a less privileged level restores what the
    routine receives as arguments and nothing else.  Suspending the
    destination at once captures the instruction pointer, the code segment
    selector and the stack pointer of the frame, and the data segment
    selector of the frame in the four data segment registers and in the
    stack segment register.  The flags captured are those of the caller, the
    registers [ebx], [esi] and [edi] are the caller's, [ebp] is the stack
    pointer on entry to the routine, and [eax], [ecx] and [edx] are what
    [pic_EOI] left in them. *)
Theorem switch_restores_arguments_only
  (callee : symbol -> list Z -> scratch) (ret : Z) (kernel : state) (f : regs_t) :
  cpl kernel < rpl (cs f) ->
  exists g,
    resuspend callee ret kernel f = Some g /\
    (eip g = eip f /\ cs g = low16 (cs f) /\ esp g = esp f /\
     ss g = low16 (ds f)) /\
    (ds g = low16 (ds f) /\ es g = low16 (ds f) /\
     fs g = low16 (ds f) /\ gs g = low16 (ds f)) /\
    eflags g = flags kernel /\
    (ebp g = offset (gpr kernel ESP) (-20) /\ ebx g = gpr kernel EBX /\
     esi g = gpr kernel ESI /\ edi g = gpr kernel EDI) /\
    (eax g = ret_eax (callee pic_EOI [0]) /\
     ecx g = ret_ecx (callee pic_EOI [0]) /\
     edx g = ret_edx (callee pic_EOI [0])).
Proof.
  intros Hring. unfold resuspend, switch_to.
  pose proof (call_context_switch_args
                (esp f) (eip f) (ds f) (cs f) ret kernel) as Hargs.
  cbv zeta in Hargs.
  remember (call_context_switch (esp f) (eip f) (ds f) (cs f) ret kernel)
    as s eqn:Es.
  destruct Hargs as (A1 & A2 & A3 & A4 & Hsp & Hfl & Hcs & Hbx & Hsi & Hdi).
  destruct (context_switch_resumes callee s)
    as (s' & -> & (Hpc & Hcs' & Hsp' & Hss) & Hsegs & Hfl' & Hkeep & Hscr).
  { unfold cpl in *. now rewrite Hcs, A4. }
  eexists. split; [reflexivity |]. cbn [capture eip cs esp ss ds es fs gs
                                        eflags ebp ebx esi edi eax ecx edx].
  rewrite Hpc, Hcs', Hsp', Hss, Hfl'.
  destruct Hsegs as (-> & -> & -> & ->).
  destruct Hkeep as (-> & -> & -> & ->).
  destruct Hscr as (-> & -> & ->).
  rewrite A1, A2, A3, A4, Hsp, Hfl, Hbx, Hsi, Hdi.
  repeat split; reflexivity.
Qed.

(** The switch from the kernel context to the ring 3 frame. *)
Lemma switch_restores_arguments_only_witness :
  exists g,
    resuspend quiet 1052672 kernel0 user_frame = Some g /\
    (eip g = eip user_frame /\ cs g = low16 (cs user_frame) /\
     esp g = esp user_frame /\ ss g = low16 (ds user_frame)) /\
    (ds g = low16 (ds user_frame) /\ es g = low16 (ds user_frame) /\
     fs g = low16 (ds user_frame) /\ gs g = low16 (ds user_frame)) /\
    eflags g = flags kernel0 /\
    (ebp g = offset (gpr kernel0 ESP) (-20) /\ ebx g = gpr kernel0 EBX /\
     esi g = gpr kernel0 ESI /\ edi g = gpr kernel0 EDI) /\
    (eax g = ret_eax (quiet pic_EOI [0]) /\
     ecx g = ret_ecx (quiet pic_EOI [0]) /\
     edx g = ret_edx (quiet pic_EOI [0])).
Proof.
  apply (switch_restores_arguments_only quiet 1052672 kernel0 user_frame).
  vm_compute. reflexivity.
Defined.

(** C4 fails: after the switch to the frame of a suspended ring 3 process,
    suspending again captures the caller's flags (interrupts disabled) and
    the caller's registers, not those of the frame. *)
Lemma round_trip_fails :
  resuspend quiet 1052672 kernel0 user_frame =
  Some {| eax := 0; ebx := 11; ecx := 0; edx := 0; esi := 12; edi := 13;
          ebp := 36844;
          ds := 35; es := 35; fs := 35; gs := 35;
          eflags := 2;
          eip := 134512640; cs := 27;
          esp := 3221221360; ss := 35 |} /\
  resuspend quiet 1052672 kernel0 user_frame <> Some user_frame.
Proof.
  assert (E : resuspend quiet 1052672 kernel0 user_frame =
    Some {| eax := 0; ebx := 11; ecx := 0; edx := 0; esi := 12; edi := 13;
            ebp := 36844;
            ds := 35; es := 35; fs := 35; gs := 35;
            eflags := 2;
            eip := 134512640; cs := 27;
            esp := 3221221360; ss := 35 |}) by (vm_compute; reflexivity).
  split; [exact E |]. rewrite E. discriminate.
Qed.

(** The flags the destination resumes with are the caller's flags on entry:
    [pushf] stores them in the image before [sti] is executed, and [iret]
    loads them from the image.  The interrupt flag set by [sti] does not
    reach the destination. *)
Theorem destination_flags_are_callers
  (callee : symbol -> list Z -> scratch) (s : state) :
  cpl s < rpl (arg s 4) ->
  exists s',
    fst (run callee context_switch s) = Resumed s' /\
    flags s' = flags s.
Proof.
  intros Hring.
  destruct (context_switch_resumes callee s Hring)
    as (s' & Hrun & _ & _ & Hfl & _).
  exists s'. split; assumption.
Qed.

(** Entered from the kernel context with interrupts disabled, the switch to
    ring 3 resumes with interrupts disabled. *)
Lemma destination_flags_are_callers_witness :
  exists s',
    fst (run quiet context_switch user_entry) = Resumed s' /\
    flags s' = flags user_entry.
Proof.
  apply (destination_flags_are_callers quiet user_entry).
  vm_compute. reflexivity.
Defined.

(** *** Further properties of the routine *)

(** The words of the image, as [iret] reads them. *)
Lemma image_words callee s :
  exists s1,
    at_iret callee context_switch s = Some s1 /\
    fst (run callee context_switch s) = do_iret s1 /\
    (load s1 ESP 0 = arg s 2 /\ load s1 ESP 4 = arg s 4 /\
     load s1 ESP 8 = flags s /\ load s1 ESP 12 = arg s 1 /\
     load s1 ESP 16 = arg s 3) /\
    gpr s1 ESP = offset (gpr s ESP) (-20) /\
    seg s1 CS = seg s CS /\ seg s1 SS = seg s SS.
Proof.
  destruct (context_switch_at_iret callee s)
    as (s1 & Hat & Hsp & Hw & _ & (Hcs & Hss) & _).
  exists s1. split; [assumption |].
  split; [now apply run_at_iret |].
  cbn [stack_words] in Hw.
  injection Hw as W0 W4 W8 W12 W16.
  change (0 + 4) with 4 in W4. change (0 + 4 + 4) with 8 in W8.
  change (0 + 4 + 4 + 4) with 12 in W12.
  change (0 + 4 + 4 + 4 + 4) with 16 in W16.
  repeat split; assumption.
Qed.


(** When the code segment selector argument has the current privilege
    level, [iret] pops three words only: the destination does not get the
    stack pointer argument.  Its stack pointer is 8 bytes below the caller's
    stack pointer on entry, where the pushed stack pointer and data segment
    selector still lie, and its stack segment is the caller's. *)
Theorem same_ring_keeps_stack
  (callee : symbol -> list Z -> scratch) (s : state) :
  rpl (arg s 4) = cpl s ->
  exists s',
    fst (run callee context_switch s) = Resumed s' /\
    gpr s' ESP = offset (gpr s ESP) (-8) /\
    seg s' SS = seg s SS /\
    stack_words s' 0 2 = [arg s 1; arg s 3].
Proof.
  intros Hring.
  destruct (image_words callee s)
    as (s1 & _ & -> & (W0 & W4 & W8 & W12 & W16) & Hsp & Hcs & Hss).
  unfold do_iret, cpl. rewrite W4, Hcs, rpl_low16.
  unfold cpl in Hring. rewrite Hring, Z.ltb_irrefl, Z.eqb_refl.
  eexists. split; [reflexivity |].
  unfold load in *. cbn. rewrite Hsp in *. rewrite !offset_offset in *.
  cbn in *. rewrite Hss, W12, W16. repeat split.
Qed.

Lemma same_ring_keeps_stack_witness :
  exists s',
    fst (run quiet context_switch same_ring_entry) = Resumed s' /\
    gpr s' ESP = offset (gpr same_ring_entry ESP) (-8) /\
    seg s' SS = seg same_ring_entry SS /\
    stack_words s' 0 2 = [arg same_ring_entry 1; arg same_ring_entry 3].
Proof.
  apply (same_ring_keeps_stack quiet same_ring_entry).
  vm_compute. reflexivity.
Defined.



End X86Facts.

Module SyscallFacts.
Import Machine Syscall.

Section SysExit.

Variable process : Z.
Variable registers : regs_t.
Variable env : nat -> bool.

Local Abbreviation exec_n := (run process registers env sys_exit).

(** The idle loop [while(1) ;]. *)
Local Abbreviation idle := (Exec [Swhile_1 []]).

(** A step of the idle loop leaves the configuration as it is. *)
Lemma step_idle b c : ctl c = idle -> step process registers b c = c.
Proof. destruct c as [k o]. cbn. intros ->. reflexivity. Qed.

Lemma step_away b c : ctl c = Away -> step process registers b c = c.
Proof. destruct c as [k o]. cbn. intros ->. reflexivity. Qed.

(** After its four statements the function has performed its four
    operations and is either in the idle loop or away. *)
Lemma after_four :
  exec_n 4 =
  {| ctl := if env 3%nat then idle else Away;
     out := sys_exit_trace process registers |}.
Proof. reflexivity. Qed.

(** Nothing changes from then on. *)
Lemma stable_after_four n : exec_n (4 + n) = exec_n 4.
Proof.
  induction n as [| n IH]; [reflexivity |].
  rewrite Nat.add_succ_r. cbn [run]. rewrite IH, after_four.
  destruct (env 3%nat); [apply step_idle | apply step_away]; reflexivity.
Qed.

(** Every number of steps is below four or past four. *)
Lemma four_cases (n : nat) :
  n = 0%nat \/ n = 1%nat \/ n = 2%nat \/ n = 3%nat \/ exists m, n = (4 + m)%nat.
Proof.
  do 4 (destruct n as [| n]; [tauto |]).
  right; right; right; right. now exists n.
Qed.

End SysExit.

(** C3: [sys_exit] performs its effects in this order: it calls
    [process_exit] with the process and the [ebx] member of the register
    frame, then calls [pic_EOI], then enables interrupts, then issues the
    software trap; after [n] steps it has performed the first [n] of these
    four operations, and never any other. *)
Theorem sys_exit_order (process : Z) (registers : regs_t) (env : nat -> bool) (n : nat) :
  out (run process registers env sys_exit n)
  = firstn n [ EvCall process_exit [process; ebx registers];
               EvCall pic_EOI [128];
               EvSti;
               EvTrap 32 ].
Proof.
  destruct (four_cases n) as [-> | [-> | [-> | [-> | [m ->]]]]];
    try reflexivity.
  rewrite stable_after_four, after_four.
  cbn [out Nat.add firstn]. now rewrite firstn_nil.
Qed.

(** C6: once [sys_exit] has started, [process_exit] has been called exactly
    once, with the process and the value of the [ebx] member of the register
    frame, however long [sys_exit] goes on. *)
Theorem process_exit_called_once
  (process : Z) (registers : regs_t) (env : nat -> bool) (n : nat) :
  calls_to process_exit (out (run process registers env sys_exit (S n)))
  = [[process; ebx registers]].
Proof.
  destruct (four_cases (S n)) as [E | [-> | [-> | [-> | [m ->]]]]];
    try discriminate; try reflexivity.
  rewrite stable_after_four, after_four. reflexivity.
Qed.

(** A process whose frame holds 7 in [ebx]: [process_exit] observes the
    process and 7, once. *)
Example exit_status_7 (process : Z) (env : nat -> bool) (n : nat) :
  calls_to process_exit
    (out (run process
            {| eax := 1; ebx := 7; ecx := 0; edx := 0; esi := 0; edi := 0;
               ebp := 0; ds := 35; es := 35; fs := 35; gs := 35;
               eflags := 514; eip := 0; cs := 27; esp := 0; ss := 35 |}
            env sys_exit (S n)))
  = [[process; 7]].
Proof.
  destruct (four_cases (S n)) as [E | [-> | [-> | [-> | [m ->]]]]];
    try discriminate; try reflexivity.
  rewrite stable_after_four, after_four. reflexivity.
Qed.

(** C7: [sys_exit] never reaches its return point.  After its four
    statements it either is away, control having been transferred by the
    software trap, or is in the idle loop, where it stays; it performs no
    further operation. *)
Theorem sys_exit_never_returns
  (process : Z) (registers : regs_t) (env : nat -> bool) :
  (forall n, ctl (run process registers env sys_exit n) <> Returned) /\
  (forall n, ctl (run process registers env sys_exit (4 + n))
             = if env 3%nat then Exec [Swhile_1 []] else Away) /\
  (forall n, out (run process registers env sys_exit (4 + n))
             = sys_exit_trace process registers).
Proof.
  assert (H4 : forall n,
             run process registers env sys_exit (4 + n) =
             {| ctl := if env 3%nat then Exec [Swhile_1 []] else Away;
                out := sys_exit_trace process registers |}).
  { intros n. now rewrite stable_after_four, after_four. }
  split; [| split].
  - intros n.
    destruct (four_cases n) as [-> | [-> | [-> | [-> | [m ->]]]]];
      try discriminate.
    rewrite H4. cbn [ctl]. destruct (env 3%nat); discriminate.
  - intros n. now rewrite H4.
  - intros n. now rewrite H4.
Qed.

(** The return point is reachable in the model: the same statements without
    the final loop return to the caller. *)
Lemma without_loop_returns (process : Z) (registers : regs_t) :
  ctl (run process registers (fun _ => true) (removelast sys_exit) 5) = Returned.
Proof. reflexivity. Qed.

(** [sys_exit] uses nothing of the register frame but its [ebx] member: two
    frames that agree on [ebx] give the same operations and the same control
    after every number of steps. *)
Theorem sys_exit_reads_only_ebx
  (process : Z) (r1 r2 : regs_t) (env : nat -> bool) (n : nat) :
  ebx r1 = ebx r2 ->
  run process r1 env sys_exit n = run process r2 env sys_exit n.
Proof.
  intros H.
  destruct (four_cases n) as [-> | [-> | [-> | [-> | [m ->]]]]];
    try (cbn; rewrite H; reflexivity).
  - reflexivity.
  - rewrite !stable_after_four, !after_four. unfold sys_exit_trace.
    now rewrite H.
Qed.

Lemma sys_exit_reads_only_ebx_witness :
  run 4096 X86.user_frame (fun _ => true) sys_exit 6
  = run 4096
      {| eax := 0; ebx := 1; ecx := 9; edx := 9; esi := 9; edi := 9;
         ebp := 9; ds := 16; es := 16; fs := 16; gs := 16;
         eflags := 2; eip := 9; cs := 8; esp := 9; ss := 16 |}
      (fun _ => true) sys_exit 6.
Proof.
  apply (sys_exit_reads_only_ebx 4096 X86.user_frame).
  reflexivity.
Defined.

End SyscallFacts.

Module AcknowledgmentFacts.
Import Machine X86 Syscall X86Facts SyscallFacts.

(** [context_switch] acknowledges line 0, for every delivery. *)
Lemma acknowledged_zero callee d : acknowledged callee d = [[0]].
Proof.
  unfold acknowledged. rewrite context_switch_trace. reflexivity.
Qed.

(** C2, as amended: in [context_switch] and in [sys_exit], [pic_EOI] is
    called exactly once, before interrupts are re-enabled, and its line
    argument is a constant of the routine: 0 in [context_switch], whatever
    state it is entered in, and [0x80] in [sys_exit], whatever the process
    and its register frame. *)
Theorem acknowledged_once_before_sti :
  (forall callee s,
     let tr := snd (X86.run callee context_switch s) in
     calls_to pic_EOI tr = [[0]] /\
     calls_to pic_EOI (before_sti tr) = [[0]] /\
     count_sti tr = 1%nat) /\
  (forall process registers env n,
     let tr := out (Syscall.run process registers env sys_exit (4 + n)) in
     calls_to pic_EOI tr = [[128]] /\
     calls_to pic_EOI (before_sti tr) = [[128]] /\
     count_sti tr = 1%nat).
Proof.
  split.
  - intros callee s tr. subst tr. rewrite context_switch_trace.
    repeat split.
  - intros process registers env n tr. subst tr.
    rewrite stable_after_four, after_four. repeat split.
Qed.

(** C2 fails: the line [context_switch] acknowledges is not derived from the
    entry vector.  The deliveries of vectors [0x20] and [0x21] are both
    acknowledged on line 0, the immediate operand of the routine. *)
Lemma line_is_handler_constant :
  acknowledged quiet {| vector := 32; entry := same_ring_entry |} = [[0]] /\
  acknowledged quiet {| vector := 33; entry := same_ring_entry |} = [[0]] /\
  ~ line_derived_from_vector quiet.
Proof.
  split; [apply acknowledged_zero |]. split; [apply acknowledged_zero |].
  intros (line & (v & w & Hne) & H).
  pose proof (H {| vector := v; entry := same_ring_entry |}) as Hv.
  pose proof (H {| vector := w; entry := same_ring_entry |}) as Hw.
  rewrite acknowledged_zero in Hv, Hw. cbn [vector] in Hv, Hw.
  congruence.
Qed.

End AcknowledgmentFacts.

Module UtilFacts.
Import Word Util WordFacts.

Section PowerOfTwo.

Variables (p k : Z).
Hypothesis Hp : is_word p.
Hypothesis Hk : 0 <= k < 32.

Let n := 2 ^ k.

Lemma n_pos : 0 < n.
Proof. subst n. apply Z.pow_pos_nonneg; lia. Qed.

Lemma n_le_modulus : n < modulus.
Proof. subst n. unfold modulus. apply Z.pow_lt_mono_r; lia. Qed.

Lemma mask_value : wrap (n - 1) = Z.ones k.
Proof.
  rewrite wrap_small.
  - subst n. rewrite Z.ones_equiv. lia.
  - pose proof n_pos. pose proof n_le_modulus. unfold is_word. lia.
Qed.

Lemma IS_ALIGNED_mod : IS_ALIGNED p n = (p mod n =? 0).
Proof.
  unfold IS_ALIGNED. rewrite mask_value, Z.land_ones by lia. reflexivity.
Qed.

Lemma ALIGN_DOWN_value : ALIGN_DOWN p n = p - p mod n.
Proof.
  unfold ALIGN_DOWN, not32. rewrite land_wrap_r by exact Hp.
  rewrite mask_value.
  rewrite <- Z.ldiff_land.
  rewrite Z.ldiff_ones_r by lia.
  rewrite Z.shiftr_div_pow2, Z.shiftl_mul_pow2 by lia.
  fold n. pose proof n_pos.
  rewrite (Z.mod_eq p n) by lia. lia.
Qed.

Lemma ALIGN_UP_value : ALIGN_UP p n = wrap (p - p mod n + n).
Proof. unfold ALIGN_UP. now rewrite ALIGN_DOWN_value. Qed.

Lemma ALIGN_aligned : p mod n = 0 -> ALIGN p n = p.
Proof.
  intros H. unfold ALIGN. rewrite IS_ALIGNED_mod, H. reflexivity.
Qed.

Lemma ALIGN_unaligned :
  p mod n <> 0 -> p + n <= modulus -> ALIGN p n = p - p mod n + n.
Proof.
  intros H Hfit. unfold ALIGN. rewrite IS_ALIGNED_mod.
  destruct (Z.eqb_spec (p mod n) 0) as [E | _]; [contradiction |].
  rewrite ALIGN_UP_value. apply wrap_small.
  pose proof (Z.mod_pos_bound p n n_pos). unfold is_word in *. lia.
Qed.

Lemma round_up_least :
  p mod n <> 0 -> least_multiple_ge n p (p - p mod n + n).
Proof.
  intros H. pose proof n_pos as Hn.
  pose proof (Z.mod_pos_bound p n Hn) as Hr.
  pose proof (Z.div_mod p n ltac:(lia)) as Hdm.
  repeat split.
  - exists (p / n + 1). lia.
  - lia.
  - intros m' [j ->] Hle.
    assert (p / n < j) by nia. nia.
Qed.

End PowerOfTwo.

(** C10, as amended: for a 32-bit address [p] and a power of two [n = 2 ^ k]
    with [p + n <= 2 ^ 32], [ALIGN(p, n)] is the least multiple of [n] that is
    greater than or equal to [p]; when [p] is already aligned it is [p]
    itself, although [ALIGN_UP(p, n)] is then [p + n] (modulo [2 ^ 32]). *)
Theorem ALIGN_least_multiple (p k : Z) :
  is_word p -> 0 <= k < 32 -> p + 2 ^ k <= modulus ->
  least_multiple_ge (2 ^ k) p (ALIGN p (2 ^ k)) /\
  (IS_ALIGNED p (2 ^ k) = true ->
   ALIGN p (2 ^ k) = p /\ ALIGN_UP p (2 ^ k) = wrap (p + 2 ^ k)).
Proof.
  intros Hp Hk Hfit. split.
  - destruct (Z.eq_dec (p mod 2 ^ k) 0) as [E | E].
    + rewrite ALIGN_aligned by assumption.
      repeat split; try lia.
      apply Z.mod_divide; trivial. pose proof (n_pos k Hk). lia.
    + rewrite ALIGN_unaligned by assumption.
      now apply round_up_least.
  - rewrite IS_ALIGNED_mod by assumption. intros E.
    apply Z.eqb_eq in E. split.
    + now apply ALIGN_aligned.
    + rewrite ALIGN_UP_value by assumption. rewrite E. f_equal. lia.
Qed.

(** An instance: [ALIGN(13, 8)] is [16], the least multiple of 8 above 13. *)
Lemma ALIGN_least_multiple_witness :
  least_multiple_ge (2 ^ 3) 13 (ALIGN 13 (2 ^ 3)) /\
  (IS_ALIGNED 13 (2 ^ 3) = true ->
   ALIGN 13 (2 ^ 3) = 13 /\ ALIGN_UP 13 (2 ^ 3) = wrap (13 + 2 ^ 3)).
Proof.
  apply (ALIGN_least_multiple 13 3); unfold is_word, modulus; simpl; lia.
Defined.

(** C10 fails at the top of the address space: for the unaligned address
    [0xFFFFFFF9] and [n = 8] the sum in [ALIGN_UP] wraps around and
    [ALIGN] yields [0], which is below the address. *)
Lemma ALIGN_wraps_at_top :
  is_word 4294967289 /\
  ALIGN 4294967289 (2 ^ 3) = 0 /\
  ~ least_multiple_ge (2 ^ 3) 4294967289 (ALIGN 4294967289 (2 ^ 3)).
Proof.
  split; [unfold is_word, modulus; lia |].
  split; [reflexivity |].
  change (ALIGN 4294967289 (2 ^ 3)) with 0.
  intros (_ & Hle & _). lia.
Qed.

(** *** The other macros of util.h *)

(** [IS_ALIGNED(p, n)] decides whether the power of two [n] divides [p]. *)
Theorem IS_ALIGNED_divides (p k : Z) :
  is_word p -> 0 <= k < 32 ->
  (IS_ALIGNED p (2 ^ k) = true <-> (2 ^ k | p)).
Proof.
  intros Hp Hk. rewrite IS_ALIGNED_mod by assumption.
  pose proof (n_pos k Hk).
  rewrite Z.eqb_eq. apply Z.mod_divide. lia.
Qed.

Lemma IS_ALIGNED_divides_witness :
  IS_ALIGNED 4096 (2 ^ 12) = true <-> (2 ^ 12 | 4096).
Proof.
  apply (IS_ALIGNED_divides 4096 12); unfold is_word, modulus; lia.
Defined.

(** [ALIGN_DOWN(p, n)] is the greatest multiple of the power of two [n] that
    is at most [p], for every 32-bit [p]; it is less than [n] below [p]. *)
Theorem ALIGN_DOWN_greatest_multiple (p k : Z) :
  is_word p -> 0 <= k < 32 ->
  greatest_multiple_le (2 ^ k) p (ALIGN_DOWN p (2 ^ k)) /\
  p - ALIGN_DOWN p (2 ^ k) < 2 ^ k.
Proof.
  intros Hp Hk. rewrite ALIGN_DOWN_value by assumption.
  pose proof (n_pos k Hk) as Hn.
  pose proof (Z.mod_pos_bound p (2 ^ k) Hn) as Hr.
  pose proof (Z.div_mod p (2 ^ k) ltac:(lia)) as Hdm.
  split; [| lia]. repeat split.
  - exists (p / 2 ^ k). lia.
  - lia.
  - intros m' [j ->] Hle.
    assert (j <= p / 2 ^ k) by nia. nia.
Qed.

Lemma ALIGN_DOWN_greatest_multiple_witness :
  greatest_multiple_le (2 ^ 12) 20000 (ALIGN_DOWN 20000 (2 ^ 12)) /\
  20000 - ALIGN_DOWN 20000 (2 ^ 12) < 2 ^ 12.
Proof.
  apply (ALIGN_DOWN_greatest_multiple 20000 12); unfold is_word, modulus; lia.
Defined.

Lemma wrap_mod_pow2 z k : 0 <= k < 32 -> wrap z mod 2 ^ k = z mod 2 ^ k.
Proof.
  intros Hk. unfold wrap, modulus.
  apply Z.mod_mod_divide.
  exists (2 ^ (32 - k)). rewrite <- Z.pow_add_r by lia. f_equal. lia.
Qed.

(** The result of [ALIGN(p, n)] is a 32-bit address aligned on [n], also
    when the addition in [ALIGN_UP] wraps around; aligning it again changes
    nothing. *)
Theorem ALIGN_is_aligned (p k : Z) :
  is_word p -> 0 <= k < 32 ->
  is_word (ALIGN p (2 ^ k)) /\
  IS_ALIGNED (ALIGN p (2 ^ k)) (2 ^ k) = true /\
  ALIGN (ALIGN p (2 ^ k)) (2 ^ k) = ALIGN p (2 ^ k).
Proof.
  intros Hp Hk. pose proof (n_pos k Hk) as Hn.
  assert (Hw : is_word (ALIGN p (2 ^ k))).
  { unfold ALIGN. destruct (IS_ALIGNED p (2 ^ k)); [assumption |].
    unfold ALIGN_UP. apply wrap_is_word. }
  assert (Ha : IS_ALIGNED (ALIGN p (2 ^ k)) (2 ^ k) = true).
  { rewrite IS_ALIGNED_mod by assumption. apply Z.eqb_eq.
    unfold ALIGN. rewrite IS_ALIGNED_mod by assumption.
    destruct (Z.eqb_spec (p mod 2 ^ k) 0) as [E | E]; [assumption |].
    rewrite ALIGN_UP_value by assumption.
    rewrite wrap_mod_pow2 by assumption.
    pose proof (Z.div_mod p (2 ^ k) ltac:(lia)) as Hdm.
    replace (p - p mod 2 ^ k + 2 ^ k) with ((p / 2 ^ k + 1) * 2 ^ k) by lia.
    apply Z.mod_mul. lia. }
  split; [assumption |]. split; [assumption |].
  unfold ALIGN at 1. now rewrite Ha.
Qed.

Lemma ALIGN_is_aligned_witness :
  is_word (ALIGN 4294967289 (2 ^ 3)) /\
  IS_ALIGNED (ALIGN 4294967289 (2 ^ 3)) (2 ^ 3) = true /\
  ALIGN (ALIGN 4294967289 (2 ^ 3)) (2 ^ 3) = ALIGN 4294967289 (2 ^ 3).
Proof.
  apply (ALIGN_is_aligned 4294967289 3); unfold is_word, modulus; lia.
Defined.

Lemma UPPER_DIVISION_value n0 n1 :
  is_word n0 -> 0 < n1 ->
  UPPER_DIVISION n0 n1
  = if n0 mod n1 =? 0 then n0 / n1 else n0 / n1 + 1.
Proof.
  intros [H0 Hlt] H1. unfold UPPER_DIVISION.
  rewrite Z.rem_mod_nonneg, Z.quot_div_nonneg by lia.
  destruct (Z.eqb_spec (n0 mod n1) 0) as [E | E]; [reflexivity |].
  apply wrap_small. unfold is_word.
  pose proof (Z.div_pos n0 n1 H0 H1).
  assert (n0 / n1 <= n0) by (apply Z.div_le_upper_bound; nia).
  assert (n1 <> 1) by (intros ->; now rewrite Z.mod_1_r in E).
  assert (n0 / n1 < n0 \/ n0 = 0).
  { destruct (Z.eq_dec n0 0); [now right | left].
    apply Z.div_lt; lia. }
  assert (n0 <> 0) by (intros ->; now rewrite Z.mod_0_l in E by lia).
  lia.
Qed.

(** For unsigned 32-bit operands with a positive divisor,
    [UPPER_DIVISION(n0, n1)] is the quotient rounded up: the least [q] with
    [n0 <= q * n1]; the addition of 1 never wraps around. *)
Theorem UPPER_DIVISION_rounds_up (n0 n1 : Z) :
  is_word n0 -> 0 < n1 ->
  least_cover n0 n1 (UPPER_DIVISION n0 n1) /\
  is_word (UPPER_DIVISION n0 n1).
Proof.
  intros Hw H1. rewrite UPPER_DIVISION_value by assumption.
  destruct Hw as [H0 Hlt].
  pose proof (Z.mod_pos_bound n0 n1 H1) as Hr.
  pose proof (Z.div_mod n0 n1 ltac:(lia)) as Hdm.
  pose proof (Z.div_pos n0 n1 H0 H1) as Hq.
  assert (Hle : n0 / n1 <= n0) by (apply Z.div_le_upper_bound; nia).
  destruct (Z.eqb_spec (n0 mod n1) 0) as [E | E].
  - split; [split |].
    + nia.
    + intros q' Hq'. assert (n0 / n1 - 1 < q') by nia. lia.
    + unfold is_word. lia.
  - split; [split |].
    + nia.
    + intros q' Hq'. assert (n0 / n1 < q') by nia. lia.
    + assert (n1 <> 1) by (intros ->; now rewrite Z.mod_1_r in E).
      assert (n0 <> 0) by (intros ->; now rewrite Z.mod_0_l in E by lia).
      assert (n0 / n1 < n0) by (apply Z.div_lt; lia).
      unfold is_word. lia.
Qed.

Lemma UPPER_DIVISION_rounds_up_witness :
  least_cover 10000 4096 (UPPER_DIVISION 10000 4096) /\
  is_word (UPPER_DIVISION 10000 4096).
Proof.
  apply (UPPER_DIVISION_rounds_up 10000 4096); unfold is_word, modulus; lia.
Defined.

Lemma POW2_value k : 0 <= k < 32 -> POW2 k = 2 ^ k.
Proof.
  intros Hk. unfold POW2. rewrite Z.shiftl_1_l. apply wrap_small.
  unfold is_word. pose proof (n_pos k Hk). pose proof (n_le_modulus k Hk). lia.
Qed.

(** The macros compose: when the aligned address is representable,
    [ALIGN(p, POW2(k))] is [POW2(k)] times [UPPER_DIVISION(p, POW2(k))], and
    [ALIGN_DOWN(p, POW2(k))] is [POW2(k)] times the truncated quotient. *)
Theorem ALIGN_UPPER_DIVISION (p k : Z) :
  is_word p -> 0 <= k < 32 -> p + POW2 k <= modulus ->
  ALIGN p (POW2 k) = POW2 k * UPPER_DIVISION p (POW2 k) /\
  ALIGN_DOWN p (POW2 k) = POW2 k * Z.quot p (POW2 k).
Proof.
  intros Hp Hk. rewrite POW2_value by assumption. intros Hfit.
  pose proof (n_pos k Hk) as Hn.
  pose proof (Z.div_mod p (2 ^ k) ltac:(lia)) as Hdm.
  rewrite UPPER_DIVISION_value by assumption.
  rewrite ALIGN_DOWN_value by assumption.
  rewrite Z.quot_div_nonneg by (unfold is_word in Hp; lia).
  split; [| lia].
  destruct (Z.eqb_spec (p mod 2 ^ k) 0) as [E | E].
  - rewrite ALIGN_aligned by assumption. lia.
  - rewrite ALIGN_unaligned by assumption. lia.
Qed.

Lemma ALIGN_UPPER_DIVISION_witness :
  ALIGN 10000 (POW2 12) = POW2 12 * UPPER_DIVISION 10000 (POW2 12) /\
  ALIGN_DOWN 10000 (POW2 12) = POW2 12 * Z.quot 10000 (POW2 12).
Proof.
  apply (ALIGN_UPPER_DIVISION 10000 12); unfold is_word, modulus; try lia.
  vm_compute. discriminate.
Defined.

End UtilFacts.
